(** * The meeting-core FFI stub (meeting_core_ffi_stub.c), embedded in Rocq

    The translation unit exports five C-ABI entry points over two file-scope
    variables and the C heap.  The embedding keeps that shape: a [state]
    record holds the heap and the two globals, every entry point is a
    computation in a small state-and-fault monad, and the C library calls the
    stub makes ([malloc], [free], [strlen], [memcpy]) are modelled once and
    reused. *)

From Stdlib Require Import ZArith String Ascii List Bool Lia.
From stdpp Require Import gmap strings.

Local Open Scope Z_scope.

(** ** C values *)

(** Data pointers and function pointers are addresses; [NULL] is address 0. *)
Abbreviation ptr := Z (only parsing).
Abbreviation ma_event_callback := Z (only parsing).

Definition NULL : Z := 0.

(** [typedef struct { int placeholder; } ma_runtime_stub;] *)
Record ma_runtime_stub : Type := Build_stub { placeholder : Z }.

(** [sizeof(ma_runtime_stub)]: one [int]. *)
Definition sizeof_ma_runtime_stub : Z := 4.

(** [size_t] on the macOS targets of the package is 64 bits wide; sums of
    sizes wrap around. *)
Definition SIZE_MAX : Z := 2 ^ 64 - 1.
Definition size_add (a b : Z) : Z := (a + b) mod (SIZE_MAX + 1).

(** ** The heap

    A block returned by [malloc] has no type and indeterminate contents
    ([Raw]).  Storing the [placeholder] field gives it the type of the stub
    struct; copying characters into it makes it a character array whose first
    bytes are known and whose tail, if any, is still indeterminate. *)
Inductive block : Type :=
| Raw (size : Z)
| StubObj (r : ma_runtime_stub)
| Chars (cs : list ascii) (indeterminate : Z).

(** One delivery of an event to the host: the function that was called and
    the two arguments it received. *)
Record event : Type := Build_event {
  ev_callback : Z;
  ev_json : string;
  ev_user_data : Z
}.

(** The program state: the heap, the two [static] variables of the
    translation unit, and the log of calls made through the callback. *)
Record state : Type := Build_state {
  heap : gmap Z block;
  g_callback : Z;
  g_user_data : Z;
  delivered : list event
}.

(** [static ma_event_callback g_callback = NULL; static void* g_user_data = NULL;] *)
Definition initial_state : state :=
  {| heap := ∅; g_callback := NULL; g_user_data := NULL; delivered := [] |}.

Definition set_heap (h : gmap Z block) (s : state) : state :=
  {| heap := h; g_callback := g_callback s; g_user_data := g_user_data s;
     delivered := delivered s |}.

(** ** Computations

    A C function either returns a value in a new state or has undefined
    behaviour (an invalid [free], a store through a bad pointer). *)
Inductive outcome (A : Type) : Type :=
| Ret (a : A) (s : state)
| Undefined.
Arguments Ret {A} a s.
Arguments Undefined {A}.

Definition M (A : Type) : Type := state -> outcome A.

Definition ret {A : Type} (a : A) : M A := fun s => Ret a s.

Definition bind {A B : Type} (c : M A) (k : A -> M B) : M B :=
  fun s => match c s with
           | Ret a s' => k a s'
           | Undefined => Undefined
           end.

Declare Scope c_scope.
Delimit Scope c_scope with C.
Notation "x <- c ;; k" := (bind c (fun x => k))
  (at level 100, c at next level, right associativity) : c_scope.
Notation "c ;;; k" := (bind c (fun _ => k))
  (at level 100, right associativity) : c_scope.
Local Open Scope c_scope.

(** ** The C library, as far as the stub uses it *)

Module Libc.

(** [malloc(size)].  Whether the allocator finds memory, and where, is not
    decided by the program: [answer] is the address the allocator gives
    back for this call, [NULL] when it has none.  A successful call adds a
    block of indeterminate contents at that address. *)
Definition malloc (answer : ptr) (size : Z) : M ptr := fun s =>
  if answer =? NULL then Ret NULL s
  else Ret answer (set_heap (<[answer := Raw size]> (heap s)) s).

(** [free(p)]: nothing for [NULL], releases a live block, undefined for any
    other address (a double free, a pointer [malloc] never returned). *)
Definition free (p : ptr) : M unit := fun s =>
  if p =? NULL then Ret tt s
  else match heap s !! p with
       | Some _ => Ret tt (set_heap (delete p (heap s)) s)
       | None => Undefined
       end.

(** The array a string literal denotes: its characters and a final NUL. *)
Definition literal (text : string) : list ascii :=
  list_ascii_of_string text ++ ["000"%char].

(** [strlen]: the number of characters before the first NUL. *)
Fixpoint strlen (cs : list ascii) : Z :=
  match cs with
  | [] => 0
  | c :: rest => if Ascii.eqb c "000" then 0 else 1 + strlen rest
  end.

(** [memcpy(dst, src, n)] from a constant array into a heap block: needs
    [n] readable bytes in [src] and [n] writable bytes at [dst]. *)
Definition memcpy (dst : ptr) (src : list ascii) (n : Z) : M unit := fun s =>
  match heap s !! dst with
  | Some (Raw size) =>
      if (0 <=? n) && (n <=? size) && (n <=? Z.of_nat (length src))
      then Ret tt (set_heap (<[dst := Chars (firstn (Z.to_nat n) src) (size - n)]> (heap s)) s)
      else Undefined
  | _ => Undefined
  end.

(** The C string stored in a character array, up to its first NUL; [None]
    when no NUL is among the known bytes. *)
Fixpoint until_nul (cs : list ascii) : option string :=
  match cs with
  | [] => None
  | c :: rest =>
      if Ascii.eqb c "000" then Some EmptyString
      else option_map (String c) (until_nul rest)
  end.

End Libc.

(** The text a caller reads through a [char*] it was handed. *)
Definition c_string_at (s : state) (p : ptr) : option string :=
  match heap s !! p with
  | Some (Chars cs _) => Libc.until_nul cs
  | _ => None
  end.

(** The stub object a handle points to, if it points to one. *)
Definition runtime_at (s : state) (p : ptr) : option ma_runtime_stub :=
  match heap s !! p with
  | Some (StubObj r) => Some r
  | _ => None
  end.

(** [runtime->placeholder = v]: the block must be live and large enough for
    the struct. *)
Definition store_placeholder (runtime : ptr) (v : Z) : M unit := fun s =>
  match heap s !! runtime with
  | Some (Raw size) =>
      if sizeof_ma_runtime_stub <=? size
      then Ret tt (set_heap (<[runtime := StubObj {| placeholder := v |}]> (heap s)) s)
      else Undefined
  | Some (StubObj _) =>
      Ret tt (set_heap (<[runtime := StubObj {| placeholder := v |}]> (heap s)) s)
  | _ => Undefined
  end.

(** A call [g_callback(event_json, g_user_data)]: undefined through a null
    function pointer, otherwise one more entry in the delivery log.  This is
    the only way the log grows. *)
Definition call_g_callback (event_json : string) : M unit := fun s =>
  if g_callback s =? NULL then Undefined
  else Ret tt {| heap := heap s; g_callback := g_callback s;
                 g_user_data := g_user_data s;
                 delivered := delivered s ++
                   [{| ev_callback := g_callback s; ev_json := event_json;
                       ev_user_data := g_user_data s |}] |}.

(** ** The entry points

    Text arguments ([const char*]) are caller-owned and read-only; the stub
    casts each of them to [void] and never touches it, so the embedding
    passes the text itself.  Each function that calls [malloc] takes the
    allocator's answer for that call as its last argument. *)

(** The double-quote character, written with a backslash escape in the C
    literal. *)
Definition dq : string := String "034" EmptyString.

(** The string literal assigned to [payload] in [ma_invoke_json]. *)
Definition payload : string :=
  "{" +:+ dq +:+ "ok" +:+ dq +:+ ":false," +:+ dq +:+ "error" +:+ dq +:+ ":{"
  +:+ dq +:+ "code" +:+ dq +:+ ":" +:+ dq +:+ "ffi_stub" +:+ dq +:+ ","
  +:+ dq +:+ "message" +:+ dq +:+ ":" +:+ dq
  +:+ "Linked to local FFI stub. Replace with Rust libmeeting_core_ffi for production."
  +:+ dq +:+ "}}".

Definition ma_runtime_new (config_json : string) (answer : ptr) : M ptr :=
  runtime <- Libc.malloc answer sizeof_ma_runtime_stub ;;
  (if negb (runtime =? NULL) then store_placeholder runtime 1 else ret tt) ;;;
  ret runtime.

Definition ma_runtime_free (runtime_handle : ptr) : M unit :=
  if negb (runtime_handle =? NULL) then Libc.free runtime_handle else ret tt.

Definition ma_invoke_json (runtime_handle : ptr) (request_json : string)
    (answer : ptr) : M ptr :=
  let len := Libc.strlen (Libc.literal payload) in
  out <- Libc.malloc answer (size_add len 1) ;;
  if out =? NULL then ret NULL
  else Libc.memcpy out (Libc.literal payload) (size_add len 1) ;;; ret out.

Definition ma_set_event_callback (runtime_handle : ptr)
    (callback : ma_event_callback) (user_data : ptr) : M unit := fun s =>
  Ret tt {| heap := heap s; g_callback := callback; g_user_data := user_data;
            delivered := delivered s |}.

Definition ma_free_c_string (p : ptr) : M unit :=
  if negb (p =? NULL) then Libc.free p else ret tt.

(** ** Reading a response envelope

    What the host does with the text it gets back: it reads it as JSON and
    looks for the members of the minimum response schema,
    [{ok: bool, error: {code: string, message: string} | absent}]. *)

Module Json.

#[local] Set Warnings "-register-all".

Inductive value : Type :=
| Null
| Bool (b : bool)
| Number (lexeme : list ascii)
| Str (s : string)
| Array (items : list value)
| Object (members : list (string * value)).

Definition quote : ascii := "034".
Definition backslash : ascii := "092".

Definition is_ws (c : ascii) : bool :=
  Ascii.eqb c " " || Ascii.eqb c "009" || Ascii.eqb c "010" || Ascii.eqb c "013".

Definition is_digit (c : ascii) : bool :=
  (48 <=? nat_of_ascii c)%nat && (nat_of_ascii c <=? 57)%nat.

Fixpoint skip_ws (cs : list ascii) : list ascii :=
  match cs with
  | c :: rest => if is_ws c then skip_ws rest else cs
  | [] => []
  end.

(** [strip p cs]: what follows the prefix [p] of [cs]. *)
Fixpoint strip (p cs : list ascii) : option (list ascii) :=
  match p, cs with
  | [], _ => Some cs
  | a :: p', c :: cs' => if Ascii.eqb a c then strip p' cs' else None
  | _ :: _, [] => None
  end.

(** The character an escape sequence [\c] stands for.  The [\u] form is
    not read: no envelope of this boundary needs it. *)
Definition unescape (c : ascii) : option ascii :=
  if Ascii.eqb c quote then Some quote
  else if Ascii.eqb c backslash then Some backslash
  else if Ascii.eqb c "/" then Some "/"%char
  else if Ascii.eqb c "b" then Some "008"%char
  else if Ascii.eqb c "f" then Some "012"%char
  else if Ascii.eqb c "n" then Some "010"%char
  else if Ascii.eqb c "r" then Some "013"%char
  else if Ascii.eqb c "t" then Some "009"%char
  else None.

(** The rest of a string after its opening quote, up to the closing one.
    Control characters may not appear unescaped. *)
Fixpoint string_body (cs : list ascii) : option (string * list ascii) :=
  match cs with
  | [] => None
  | c :: rest =>
      if Ascii.eqb c quote then Some (EmptyString, rest)
      else if Ascii.eqb c backslash then
        match rest with
        | e :: rest' =>
            match unescape e, string_body rest' with
            | Some d, Some (s, tail) => Some (String d s, tail)
            | _, _ => None
            end
        | [] => None
        end
      else if (nat_of_ascii c <? 32)%nat then None
      else match string_body rest with
           | Some (s, tail) => Some (String c s, tail)
           | None => None
           end
  end.

Fixpoint digits (cs : list ascii) : list ascii * list ascii :=
  match cs with
  | c :: rest =>
      if is_digit c then let (ds, tail) := digits rest in (c :: ds, tail)
      else ([], cs)
  | [] => ([], [])
  end.

(** A number: an optional minus sign, an integer part without a leading
    zero, an optional fraction and an optional exponent. *)
Definition number (cs : list ascii) : option (list ascii * list ascii) :=
  let (sign, cs1) :=
    match cs with
    | c :: rest => if Ascii.eqb c "-" then ([c], rest) else ([], cs)
    | [] => ([], [])
    end in
  let (int, cs2) := digits cs1 in
  match int with
  | [] => None
  | d :: more =>
      if Ascii.eqb d "0" && negb (Nat.eqb (length more) 0) then None
      else
        let frac :=
          match cs2 with
          | c :: rest =>
              if Ascii.eqb c "." then
                let (fs, tail) := digits rest in
                match fs with
                | [] => None
                | _ => Some (c :: fs, tail)
                end
              else Some ([], cs2)
          | [] => Some ([], [])
          end in
        match frac with
        | None => None
        | Some (fr, cs3) =>
            let exp :=
              match cs3 with
              | c :: rest =>
                  if Ascii.eqb c "e" || Ascii.eqb c "E" then
                    let (sg, rest') :=
                      match rest with
                      | g :: r => if Ascii.eqb g "+" || Ascii.eqb g "-"
                                  then ([g], r) else ([], rest)
                      | [] => ([], [])
                      end in
                    let (es, tail) := digits rest' in
                    match es with
                    | [] => None
                    | _ => Some (c :: sg ++ es, tail)
                    end
                  else Some ([], cs3)
              | [] => Some ([], [])
              end in
            match exp with
            | None => None
            | Some (ex, cs4) => Some (sign ++ int ++ fr ++ ex, cs4)
            end
        end
  end.

(** A value, the elements of an array after its bracket, and the members
    of an object after its brace, by recursive descent.  [fuel] bounds the
    depth of the descent. *)
Fixpoint parse_value (fuel : nat) (cs : list ascii) : option (value * list ascii) :=
  match fuel with
  | O => None
  | S fuel' =>
      match skip_ws cs with
      | [] => None
      | c :: rest =>
          if Ascii.eqb c quote then
            match string_body rest with
            | Some (s, tail) => Some (Str s, tail)
            | None => None
            end
          else if Ascii.eqb c "[" then
            match skip_ws rest with
            | d :: tail =>
                if Ascii.eqb d "]" then Some (Array [], tail)
                else match parse_elements fuel' rest with
                     | Some (vs, tail') => Some (Array vs, tail')
                     | None => None
                     end
            | [] => None
            end
          else if Ascii.eqb c "{" then
            match skip_ws rest with
            | d :: tail =>
                if Ascii.eqb d "}" then Some (Object [], tail)
                else match parse_members fuel' rest with
                     | Some (ms, tail') => Some (Object ms, tail')
                     | None => None
                     end
            | [] => None
            end
          else if Ascii.eqb c "t" then
            option_map (pair (Bool true)) (strip (list_ascii_of_string "true") (c :: rest))
          else if Ascii.eqb c "f" then
            option_map (pair (Bool false)) (strip (list_ascii_of_string "false") (c :: rest))
          else if Ascii.eqb c "n" then
            option_map (pair Null) (strip (list_ascii_of_string "null") (c :: rest))
          else
            match number (c :: rest) with
            | Some (lexeme, tail) => Some (Number lexeme, tail)
            | None => None
            end
      end
  end
with parse_elements (fuel : nat) (cs : list ascii) : option (list value * list ascii) :=
  match fuel with
  | O => None
  | S fuel' =>
      match parse_value fuel' cs with
      | Some (v, rest) =>
          match skip_ws rest with
          | c :: tail =>
              if Ascii.eqb c "," then
                match parse_elements fuel' tail with
                | Some (vs, tail') => Some (v :: vs, tail')
                | None => None
                end
              else if Ascii.eqb c "]" then Some ([v], tail)
              else None
          | [] => None
          end
      | None => None
      end
  end
with parse_members (fuel : nat) (cs : list ascii)
    : option (list (string * value) * list ascii) :=
  match fuel with
  | O => None
  | S fuel' =>
      match skip_ws cs with
      | q :: rest =>
          if Ascii.eqb q quote then
            match string_body rest with
            | Some (key, rest1) =>
                match skip_ws rest1 with
                | colon :: rest2 =>
                    if Ascii.eqb colon ":" then
                      match parse_value fuel' rest2 with
                      | Some (v, rest3) =>
                          match skip_ws rest3 with
                          | c :: tail =>
                              if Ascii.eqb c "," then
                                match parse_members fuel' tail with
                                | Some (ms, tail') => Some ((key, v) :: ms, tail')
                                | None => None
                                end
                              else if Ascii.eqb c "}" then Some ([(key, v)], tail)
                              else None
                          | [] => None
                          end
                      | None => None
                      end
                    else None
                | [] => None
                end
            | None => None
            end
          else None
      | [] => None
      end
  end.

(** A whole text is one value with nothing but white space around it. *)
Definition parse (text : string) : option value :=
  let cs := list_ascii_of_string text in
  match parse_value (2 * length cs + 2) cs with
  | Some (v, rest) =>
      match skip_ws rest with
      | [] => Some v
      | _ :: _ => None
      end
  | None => None
  end.

(** The first member named [key]. *)
Fixpoint member (key : string) (ms : list (string * value)) : option value :=
  match ms with
  | [] => None
  | (k, v) :: rest => if String.eqb k key then Some v else member key rest
  end.

End Json.

(** The [error] object of the schema: an object with string members [code]
    and [message]. *)
Definition error_object (v : Json.value) : option (string * string) :=
  match v with
  | Json.Object ms =>
      match Json.member "code" ms, Json.member "message" ms with
      | Some (Json.Str code), Some (Json.Str message) => Some (code, message)
      | _, _ => None
      end
  | _ => None
  end.

(** The minimum response schema: an object with a boolean [ok]; when [ok]
    is false an [error] object is present, when it is true there is no
    [error] member. *)
Definition conforms (v : Json.value) : bool :=
  match v with
  | Json.Object ms =>
      match Json.member "ok" ms with
      | Some (Json.Bool false) =>
          match Json.member "error" ms with
          | Some e => match error_object e with Some _ => true | None => false end
          | None => false
          end
      | Some (Json.Bool true) =>
          match Json.member "error" ms with
          | Some _ => false
          | None => true
          end
      | _ => false
      end
  | _ => false
  end.

(** A text is a well-formed envelope when it reads as JSON and the value
    conforms to the schema. *)
Definition well_formed_envelope (text : string) : bool :=
  match Json.parse text with
  | Some v => conforms v
  | None => false
  end.

(** The [(code, message)] pair of a failure envelope: [ok] is false and the
    [error] object is there. *)
Definition failure_of (text : string) : option (string * string) :=
  match Json.parse text with
  | Some (Json.Object ms) =>
      match Json.member "ok" ms, Json.member "error" ms with
      | Some (Json.Bool false), Some e => error_object e
      | _, _ => None
      end
  | _ => None
  end.

(** ** The host's view of the boundary *)

(** The registration in force for a runtime handle.  The stub keeps one
    [(g_callback, g_user_data)] pair for the whole translation unit and the
    struct behind a handle has no callback field, so every handle sees that
    pair. *)
Definition registration (s : state) (runtime_handle : ptr) : Z * Z :=
  (g_callback s, g_user_data s).

(** One call across the boundary, with the allocator's answer where the
    entry point allocates. *)
Inductive call : Type :=
| Create (config_json : string) (answer : ptr)
| Destroy (runtime_handle : ptr)
| Invoke (runtime_handle : ptr) (request_json : string) (answer : ptr)
| SetEventCallback (runtime_handle : ptr) (callback : ma_event_callback) (user_data : ptr)
| ReleaseText (p : ptr).

Definition perform (c : call) : M unit :=
  match c with
  | Create config_json answer => ma_runtime_new config_json answer ;;; ret tt
  | Destroy runtime_handle => ma_runtime_free runtime_handle
  | Invoke runtime_handle request_json answer =>
      ma_invoke_json runtime_handle request_json answer ;;; ret tt
  | SetEventCallback runtime_handle callback user_data =>
      ma_set_event_callback runtime_handle callback user_data
  | ReleaseText p => ma_free_c_string p
  end.

(** A host session: the calls are made in order; the first call with
    undefined behaviour ends the session.  The result is the state reached
    and the calls that were not made. *)
Fixpoint run (calls : list call) (s : state) : state * list call :=
  match calls with
  | [] => (s, [])
  | c :: rest =>
      match perform c s with
      | Ret _ s' => run rest s'
      | Undefined => (s, calls)
      end
  end.

(** The state in which the block at [p] is replaced by [b] ([None]: no block
    there). *)
Definition with_block_at (p : ptr) (b : option block) (s : state) : state :=
  set_heap (partial_alter (fun _ => b) p (heap s)) s.

(** A state used in the examples below: two live runtimes, at addresses 16
    and 32, and a registration made through the second one. *)
Definition two_runtimes : state :=
  fst (run [Create "{}" 16; Create "" 32; SetEventCallback 32 200 7] initial_state).

(** A text without an embedded NUL. *)
Fixpoint nul_free (text : string) : bool :=
  match text with
  | EmptyString => true
  | String c rest => negb (Ascii.eqb c "000") && nul_free rest
  end.

(** The registration a completed session leaves behind: the pair of its
    last [SetEventCallback], or the one it started with when it has none. *)
Fixpoint last_registration (calls : list call) (start : Z * Z) : Z * Z :=
  match calls with
  | [] => start
  | SetEventCallback _ callback user_data :: rest =>
      last_registration rest (callback, user_data)
  | _ :: rest => last_registration rest start
  end.

(** A call that hands no non-null pointer to [free]. *)
Definition releases_nothing (c : call) : bool :=
  match c with
  | Destroy p => p =? NULL
  | ReleaseText p => p =? NULL
  | _ => true
  end.

(** The two kinds of block the stub ever leaves in the heap: an initialised
    stub object and a copy of the payload array. *)
Definition stub_block (b : block) : Prop :=
  b = StubObj {| placeholder := 1 |} \/ b = Chars (Libc.literal payload) 0.

Definition stub_heap (s : state) : Prop :=
  heap s !! NULL = None /\
  forall (p : ptr) (b : block), heap s !! p = Some b -> stub_block b.

(** * Properties *)

(** ** C strings *)

Lemma strlen_literal (text : string) :
  nul_free text = true ->
  Libc.strlen (Libc.literal text) = Z.of_nat (String.length text).
Proof.
  unfold Libc.literal.
  induction text as [|c rest IH]; intros Hfree.
  - reflexivity.
  - cbn [nul_free] in Hfree. apply andb_prop in Hfree as [Hc Hrest].
    apply negb_true_iff in Hc.
    cbn [list_ascii_of_string app Libc.strlen String.length].
    rewrite Hc, (IH Hrest). lia.
Qed.

Lemma until_nul_literal (text : string) :
  nul_free text = true ->
  Libc.until_nul (Libc.literal text) = Some text.
Proof.
  unfold Libc.literal.
  induction text as [|c rest IH]; intros Hfree.
  - reflexivity.
  - cbn [nul_free] in Hfree. apply andb_prop in Hfree as [Hc Hrest].
    apply negb_true_iff in Hc.
    cbn [list_ascii_of_string app Libc.until_nul].
    rewrite Hc, (IH Hrest). reflexivity.
Qed.

Lemma length_literal (text : string) :
  length (Libc.literal text) = S (String.length text).
Proof.
  unfold Libc.literal. rewrite length_app.
  replace (length (list_ascii_of_string text)) with (String.length text).
  - cbn. lia.
  - induction text as [|c rest IH]; cbn; congruence.
Qed.

(** ** The payload *)

Lemma payload_nul_free : nul_free payload = true.
Proof. vm_compute. reflexivity. Qed.

Lemma payload_length : String.length payload = 132%nat.
Proof. vm_compute. reflexivity. Qed.

Lemma payload_strlen : Libc.strlen (Libc.literal payload) = 132.
Proof. rewrite strlen_literal by exact payload_nul_free. now rewrite payload_length. Qed.

Lemma payload_size : size_add (Libc.strlen (Libc.literal payload)) 1 = 133.
Proof. rewrite payload_strlen. reflexivity. Qed.

Lemma payload_copied_whole :
  firstn (Z.to_nat 133) (Libc.literal payload) = Libc.literal payload.
Proof.
  apply firstn_all2. rewrite length_literal, payload_length. vm_compute. lia.
Qed.

Lemma payload_parses :
  Json.parse payload =
    Some (Json.Object
            [("ok", Json.Bool false);
             ("error", Json.Object
                [("code", Json.Str "ffi_stub");
                 ("message", Json.Str
                    "Linked to local FFI stub. Replace with Rust libmeeting_core_ffi for production.")])]).
Proof. vm_compute. reflexivity. Qed.

Lemma payload_well_formed : well_formed_envelope payload = true.
Proof. unfold well_formed_envelope. rewrite payload_parses. reflexivity. Qed.

Lemma payload_failure :
  failure_of payload =
    Some ("ffi_stub",
          "Linked to local FFI stub. Replace with Rust libmeeting_core_ffi for production.").
Proof. unfold failure_of. rewrite payload_parses. reflexivity. Qed.

(** ** What each entry point computes *)

Lemma set_heap_set_heap (h1 h2 : gmap Z block) (s : state) :
  set_heap h2 (set_heap h1 s) = set_heap h2 s.
Proof. reflexivity. Qed.

Lemma set_heap_id (s : state) : set_heap (heap s) s = s.
Proof. destruct s; reflexivity. Qed.

Lemma ma_runtime_new_unfold (config_json : string) (answer : ptr) (s : state) :
  ma_runtime_new config_json answer s =
    if answer =? NULL then Ret NULL s
    else Ret answer
           (set_heap (<[answer := StubObj {| placeholder := 1 |}]> (heap s)) s).
Proof.
  unfold ma_runtime_new, bind, Libc.malloc.
  destruct (answer =? NULL) eqn:Hnull.
  - reflexivity.
  - rewrite Hnull. cbn [negb]. unfold store_placeholder, ret.
    cbn [heap set_heap]. rewrite lookup_insert_eq. cbn.
    rewrite insert_insert_eq. reflexivity.
Qed.

Lemma ma_invoke_json_unfold (runtime_handle : ptr) (request_json : string)
    (answer : ptr) (s : state) :
  ma_invoke_json runtime_handle request_json answer s =
    if answer =? NULL then Ret NULL s
    else Ret answer
           (set_heap (<[answer := Chars (Libc.literal payload) 0]> (heap s)) s).
Proof.
  unfold ma_invoke_json, bind, Libc.malloc. rewrite payload_size.
  destruct (answer =? NULL) eqn:Hnull.
  - reflexivity.
  - rewrite Hnull. unfold Libc.memcpy, ret.
    cbn [heap set_heap]. rewrite lookup_insert_eq.
    rewrite length_literal, payload_length, payload_copied_whole.
    cbn. rewrite insert_insert_eq. reflexivity.
Qed.

Lemma c_string_at_fresh_copy (answer : ptr) (s : state) :
  c_string_at (set_heap (<[answer := Chars (Libc.literal payload) 0]> (heap s)) s) answer
    = Some payload.
Proof.
  unfold c_string_at. cbn [heap set_heap]. rewrite lookup_insert_eq.
  apply until_nul_literal, payload_nul_free.
Qed.

Lemma ma_invoke_json_success (runtime_handle : ptr) (request_json : string)
    (answer : ptr) (s : state) :
  answer <> NULL ->
  exists s', ma_invoke_json runtime_handle request_json answer s = Ret answer s' /\
             c_string_at s' answer = Some payload.
Proof.
  intros Hok. rewrite ma_invoke_json_unfold.
  apply Z.eqb_neq in Hok. rewrite Hok.
  eexists. split; [reflexivity | apply c_string_at_fresh_copy].
Qed.

Lemma free_keeps_rest (p : ptr) (s s' : state) (u : unit) :
  Libc.free p s = Ret u s' ->
  g_callback s' = g_callback s /\ g_user_data s' = g_user_data s /\
  delivered s' = delivered s.
Proof.
  unfold Libc.free. destruct (p =? NULL).
  - intros [= _ <-]. auto.
  - destruct (heap s !! p); [intros [= _ <-]; auto | discriminate].
Qed.

(** No entry point touches the delivery log. *)
Lemma perform_delivers_nothing (c : call) (s s' : state) (u : unit) :
  perform c s = Ret u s' -> delivered s' = delivered s.
Proof.
  destruct c as [cfg a | h | h req a | h cb ud | p]; cbn [perform]; unfold bind.
  - rewrite ma_runtime_new_unfold. destruct (a =? NULL); intros [= _ <-]; reflexivity.
  - unfold ma_runtime_free. destruct (negb (h =? NULL)).
    + intros H. now apply free_keeps_rest in H.
    + intros [= _ <-]. reflexivity.
  - rewrite ma_invoke_json_unfold. destruct (a =? NULL); intros [= _ <-]; reflexivity.
  - intros [= _ <-]. reflexivity.
  - unfold ma_free_c_string. destruct (negb (p =? NULL)).
    + intros H. now apply free_keeps_rest in H.
    + intros [= _ <-]. reflexivity.
Qed.

(** The log is a real observation: a call through the callback, had the
    stub made one, would show in it. *)
Lemma call_g_callback_is_logged (event_json : string) (s s' : state) :
  call_g_callback event_json s = Ret tt s' ->
  length (delivered s') = S (length (delivered s)).
Proof.
  unfold call_g_callback. destruct (g_callback s =? NULL); [discriminate |].
  intros [= <-]. cbn. rewrite length_app. cbn. lia.
Qed.

Lemma two_runtimes_live :
  runtime_at two_runtimes 16 = Some {| placeholder := 1 |} /\
  runtime_at two_runtimes 32 = Some {| placeholder := 1 |} /\
  registration two_runtimes 32 = (200, 7).
Proof. vm_compute. auto. Qed.

(** [free] is a real deallocation: a live handle is released once, and a
    second release of the same handle is undefined. *)
Lemma ma_runtime_free_live (runtime_handle : ptr) (b : block) (s : state) :
  runtime_handle <> NULL ->
  heap s !! runtime_handle = Some b ->
  ma_runtime_free runtime_handle s
    = Ret tt (set_heap (delete runtime_handle (heap s)) s) /\
  ma_runtime_free runtime_handle (set_heap (delete runtime_handle (heap s)) s)
    = Undefined.
Proof.
  intros Hnn Hlive. apply Z.eqb_neq in Hnn.
  unfold ma_runtime_free, Libc.free. rewrite Hnn. cbn [negb heap set_heap].
  now rewrite Hlive, lookup_delete_eq.
Qed.

(** The scenario of a host probing the boundary: create, invoke, destroy,
    release the response.  Every call is made and the heap is empty again. *)
Example probe_session :
  run [Create "{}" 16; Invoke 16 "ping" 48; Destroy 16; ReleaseText 48]
      initial_state
  = (initial_state, []).
Proof. vm_compute. reflexivity. Qed.

(** ** The claims *)

(** C1.  Whatever the handle and the request text, [ma_invoke_json] returns;
    when its allocation succeeds the result is a non-null pointer to a text
    that reads as JSON and conforms to the minimum response schema; the
    result is null only when the allocation failed. *)
Theorem ma_invoke_json_always_envelope (runtime_handle : ptr)
    (request_json : string) (answer : ptr) (s : state) :
  exists out s',
    ma_invoke_json runtime_handle request_json answer s = Ret out s' /\
    (answer <> NULL ->
       out <> NULL /\
       exists text, c_string_at s' out = Some text /\
                    well_formed_envelope text = true) /\
    (out = NULL -> answer = NULL).
Proof.
  rewrite ma_invoke_json_unfold.
  destruct (answer =? NULL) eqn:Hnull.
  - apply Z.eqb_eq in Hnull. exists NULL, s.
    split; [reflexivity |]. split; [intros Hok; contradiction | intros _; exact Hnull].
  - apply Z.eqb_neq in Hnull. eexists answer, _. split; [reflexivity |]. split.
    + intros _. split; [exact Hnull |]. exists payload.
      split; [apply c_string_at_fresh_copy | apply payload_well_formed].
    + intros Hout. exact Hout.
Qed.

(** C2.  The envelope [ma_invoke_json] returns is a failure envelope: [ok]
    is false and the [error] object is present, with code ["ffi_stub"] and a
    message, both non-empty. *)
Theorem ma_invoke_json_failure_envelope (runtime_handle : ptr)
    (request_json : string) (answer : ptr) (s : state) :
  answer <> NULL ->
  exists s' text code message,
    ma_invoke_json runtime_handle request_json answer s = Ret answer s' /\
    c_string_at s' answer = Some text /\
    well_formed_envelope text = true /\
    failure_of text = Some (code, message) /\
    code = "ffi_stub" /\ code <> EmptyString /\ message <> EmptyString.
Proof.
  intros Hok.
  destruct (ma_invoke_json_success runtime_handle request_json answer s Hok)
    as (s' & Hrun & Htext).
  exists s', payload. do 2 eexists.
  split; [exact Hrun |]. split; [exact Htext |].
  split; [exact payload_well_formed |].
  split; [exact payload_failure |].
  split; [reflexivity |]. split; discriminate.
Qed.

Lemma ma_invoke_json_failure_envelope_witness :
  exists s' text code message,
    ma_invoke_json 16 "{}" 48 two_runtimes = Ret 48 s' /\
    c_string_at s' 48 = Some text /\
    well_formed_envelope text = true /\
    failure_of text = Some (code, message) /\
    code = "ffi_stub" /\ code <> EmptyString /\ message <> EmptyString.
Proof.
  apply (ma_invoke_json_failure_envelope 16 "{}" 48 two_runtimes).
  unfold NULL. lia.
Defined.

(** C3.  Whatever the configuration text, the empty one included,
    [ma_runtime_new] returns the freshly allocated block, non-null, with its
    [placeholder] field set to 1, provided the allocation succeeds. *)
Theorem ma_runtime_new_succeeds (config_json : string) (answer : ptr) (s : state) :
  answer <> NULL ->
  exists handle s',
    ma_runtime_new config_json answer s = Ret handle s' /\
    handle <> NULL /\
    runtime_at s' handle = Some {| placeholder := 1 |}.
Proof.
  intros Hok. rewrite ma_runtime_new_unfold.
  pose proof Hok as Hneq. apply Z.eqb_neq in Hneq. rewrite Hneq.
  eexists answer, _. split; [reflexivity |]. split; [exact Hok |].
  unfold runtime_at. cbn [heap set_heap]. now rewrite lookup_insert_eq.
Qed.

Lemma ma_runtime_new_succeeds_witness :
  exists handle s',
    ma_runtime_new EmptyString 16 initial_state = Ret handle s' /\
    handle <> NULL /\
    runtime_at s' handle = Some {| placeholder := 1 |}.
Proof.
  apply (ma_runtime_new_succeeds EmptyString 16 initial_state).
  unfold NULL. lia.
Defined.

(** C4, as the stub has it.  The registration lives in one slot shared by
    all handles: [ma_set_event_callback], whatever handle it is given, makes
    the new [(callback, user_data)] pair the registration of every handle,
    in place of the previous one, and changes nothing else. *)
Theorem ma_set_event_callback_one_slot (runtime_handle : ptr)
    (callback : ma_event_callback) (user_data : ptr) (s : state) :
  exists s',
    ma_set_event_callback runtime_handle callback user_data s = Ret tt s' /\
    (forall other : ptr, registration s' other = (callback, user_data)) /\
    heap s' = heap s /\ delivered s' = delivered s.
Proof.
  eexists. split; [reflexivity |]. repeat split.
Qed.

(** C4, as stated, fails.  Handles 16 and 32 are distinct and live, and 32
    holds the registration [(200, 7)]; registering [(100, 5)] through handle
    16 replaces the registration of handle 32. *)
Lemma ma_set_event_callback_crosses_handles :
  runtime_at two_runtimes 16 = Some {| placeholder := 1 |} /\
  runtime_at two_runtimes 32 = Some {| placeholder := 1 |} /\
  16 <> 32 /\
  registration two_runtimes 32 = (200, 7) /\
  exists s',
    ma_set_event_callback 16 100 5 two_runtimes = Ret tt s' /\
    registration s' 32 = (100, 5) /\
    registration s' 32 <> registration two_runtimes 32.
Proof.
  split; [vm_compute; reflexivity |].
  split; [vm_compute; reflexivity |].
  split; [lia |].
  split; [vm_compute; reflexivity |].
  eexists. split; [reflexivity |].
  split; [reflexivity |].
  vm_compute. discriminate.
Qed.

(** C5.  In every session of boundary calls, from every state, the delivery
    log at the end is the log at the start: no call goes through the stored
    callback.  From the initial state the log stays empty. *)
Theorem callback_never_invoked (calls : list call) (s : state) :
  delivered (fst (run calls s)) = delivered s /\
  delivered (fst (run calls initial_state)) = [].
Proof.
  assert (Hlog : forall cs s0, delivered (fst (run cs s0)) = delivered s0).
  { induction cs as [|c rest IH]; intros s0; cbn [run].
    - reflexivity.
    - destruct (perform c s0) as [u s1|] eqn:Hstep.
      + rewrite IH. exact (perform_delivers_nothing c s0 s1 u Hstep).
      + reflexivity. }
  split; [apply Hlog | now rewrite Hlog].
Qed.

(** C6.  Two calls of [ma_invoke_json] whose allocations succeed return the
    same text, whatever the two handles, the two request texts and the two
    states are. *)
Theorem ma_invoke_json_same_response (handle1 handle2 : ptr)
    (request1 request2 : string) (answer1 answer2 : ptr) (s1 s2 : state) :
  answer1 <> NULL -> answer2 <> NULL ->
  exists out1 s1' out2 s2' text,
    ma_invoke_json handle1 request1 answer1 s1 = Ret out1 s1' /\
    ma_invoke_json handle2 request2 answer2 s2 = Ret out2 s2' /\
    c_string_at s1' out1 = Some text /\
    c_string_at s2' out2 = Some text.
Proof.
  intros Hok1 Hok2.
  destruct (ma_invoke_json_success handle1 request1 answer1 s1 Hok1) as (s1' & Hrun1 & Htext1).
  destruct (ma_invoke_json_success handle2 request2 answer2 s2 Hok2) as (s2' & Hrun2 & Htext2).
  exists answer1, s1', answer2, s2', payload. auto.
Qed.

Lemma ma_invoke_json_same_response_witness :
  exists out1 s1' out2 s2' text,
    ma_invoke_json 16 "{}" 48 two_runtimes = Ret out1 s1' /\
    ma_invoke_json NULL "not json" 64 initial_state = Ret out2 s2' /\
    c_string_at s1' out1 = Some text /\
    c_string_at s2' out2 = Some text.
Proof.
  apply (ma_invoke_json_same_response 16 NULL "{}" "not json" 48 64
           two_runtimes initial_state); unfold NULL; lia.
Defined.

(** C7.  [ma_runtime_free] on the null handle returns normally in the state
    it was called in: nothing is freed, nothing is undefined, and a session
    goes on as if the call had not been made. *)
Theorem ma_runtime_free_null (s : state) :
  ma_runtime_free NULL s = Ret tt s /\
  forall calls : list call, run (Destroy NULL :: calls) s = run calls s.
Proof.
  assert (Hcall : ma_runtime_free NULL s = Ret tt s).
  { unfold ma_runtime_free. rewrite Z.eqb_refl. reflexivity. }
  split; [exact Hcall |].
  intros calls. cbn [run perform]. now rewrite Hcall.
Qed.

(** C8.  [ma_free_c_string] on the null pointer returns normally in the
    state it was called in: nothing is freed, nothing is undefined, and a
    session goes on as if the call had not been made. *)
Theorem ma_free_c_string_null (s : state) :
  ma_free_c_string NULL s = Ret tt s /\
  forall calls : list call, run (ReleaseText NULL :: calls) s = run calls s.
Proof.
  assert (Hcall : ma_free_c_string NULL s = Ret tt s).
  { unfold ma_free_c_string. rewrite Z.eqb_refl. reflexivity. }
  split; [exact Hcall |].
  intros calls. cbn [run perform]. now rewrite Hcall.
Qed.

(** C9.  [ma_invoke_json] leaves what was there as it was: the two globals,
    the delivery log, the object behind the handle and every other block
    live before the call are the same after it; when the allocation fails
    the whole state is unchanged.  The allocator's answer is null or an
    address not in use. *)
Theorem ma_invoke_json_frame (runtime_handle : ptr) (request_json : string)
    (answer : ptr) (s : state) :
  answer = NULL \/ heap s !! answer = None ->
  exists out s',
    ma_invoke_json runtime_handle request_json answer s = Ret out s' /\
    g_callback s' = g_callback s /\
    g_user_data s' = g_user_data s /\
    delivered s' = delivered s /\
    runtime_at s' runtime_handle = runtime_at s runtime_handle /\
    (forall (p : ptr) (b : block), heap s !! p = Some b -> heap s' !! p = Some b) /\
    (out = NULL -> s' = s).
Proof.
  intros Hanswer. rewrite ma_invoke_json_unfold.
  destruct (answer =? NULL) eqn:Hnull.
  - exists NULL, s. repeat split; auto.
  - apply Z.eqb_neq in Hnull. destruct Hanswer as [Hfail | Hfresh]; [contradiction |].
    eexists answer, _. split; [reflexivity |].
    cbn [g_callback g_user_data delivered heap set_heap].
    split; [reflexivity |]. split; [reflexivity |]. split; [reflexivity |].
    split; [| split].
    + unfold runtime_at. cbn [heap set_heap].
      destruct (decide (answer = runtime_handle)) as [<- | Hne].
      * now rewrite lookup_insert_eq, Hfresh.
      * now rewrite lookup_insert_ne.
    + intros p b Hp. rewrite lookup_insert_ne; [exact Hp |].
      intros ->. congruence.
    + intros Hout. contradiction.
Qed.

Lemma ma_invoke_json_frame_witness :
  exists out s',
    ma_invoke_json 16 "{}" 48 two_runtimes = Ret out s' /\
    g_callback s' = g_callback two_runtimes /\
    g_user_data s' = g_user_data two_runtimes /\
    delivered s' = delivered two_runtimes /\
    runtime_at s' 16 = runtime_at two_runtimes 16 /\
    (forall (p : ptr) (b : block),
        heap two_runtimes !! p = Some b -> heap s' !! p = Some b) /\
    (out = NULL -> s' = two_runtimes).
Proof.
  apply (ma_invoke_json_frame 16 "{}" 48 two_runtimes).
  right. vm_compute. reflexivity.
Defined.

(** C10.  [ma_invoke_json] and [ma_set_event_callback] do the same for every
    handle value; with the null handle both return normally; and what is
    stored at the handle's address, if anything, makes no difference to the
    result or to the rest of the state. *)
Theorem handle_argument_never_read (handle handle' : ptr) (request_json : string)
    (answer : ptr) (callback : ma_event_callback) (user_data : ptr) (s : state) :
  ma_invoke_json handle request_json answer s
    = ma_invoke_json handle' request_json answer s /\
  ma_set_event_callback handle callback user_data s
    = ma_set_event_callback handle' callback user_data s /\
  (exists out s', ma_invoke_json NULL request_json answer s = Ret out s') /\
  (exists s', ma_set_event_callback NULL callback user_data s = Ret tt s') /\
  (forall b : option block,
      ma_set_event_callback handle callback user_data (with_block_at handle b s)
      = match ma_set_event_callback handle callback user_data s with
        | Ret u s' => Ret u (with_block_at handle b s')
        | Undefined => Undefined
        end) /\
  (forall b : option block,
      answer <> handle ->
      ma_invoke_json handle request_json answer (with_block_at handle b s)
      = match ma_invoke_json handle request_json answer s with
        | Ret out s' => Ret out (with_block_at handle b s')
        | Undefined => Undefined
        end).
Proof.
  split; [reflexivity |]. split; [reflexivity |].
  split.
  { rewrite ma_invoke_json_unfold. destruct (answer =? NULL); eauto. }
  split; [eexists; reflexivity |].
  split; [reflexivity |].
  intros b Hne. rewrite !ma_invoke_json_unfold.
  destruct (answer =? NULL); [reflexivity |].
  unfold with_block_at. cbn [heap set_heap].
  rewrite insert_partial_alter_ne by exact Hne. reflexivity.
Qed.

(** ** Further properties of the entry points *)

(** [free] on a live block, in the terms of the state. *)
Lemma free_live (p : ptr) (b : block) (s : state) :
  p <> NULL -> heap s !! p = Some b ->
  Libc.free p s = Ret tt (set_heap (delete p (heap s)) s).
Proof.
  intros Hnn Hlive. apply Z.eqb_neq in Hnn.
  unfold Libc.free. now rewrite Hnn, Hlive.
Qed.

Lemma ma_free_c_string_live (p : ptr) (b : block) (s : state) :
  p <> NULL -> heap s !! p = Some b ->
  ma_free_c_string p s = Ret tt (set_heap (delete p (heap s)) s) /\
  ma_free_c_string p (set_heap (delete p (heap s)) s) = Undefined.
Proof.
  intros Hnn Hlive. pose proof Hnn as Hneq. apply Z.eqb_neq in Hneq.
  unfold ma_free_c_string, Libc.free. rewrite Hneq. cbn [negb heap set_heap].
  now rewrite Hlive, lookup_delete_eq.
Qed.

(** Releasing what was just allocated at an unused address gives the heap
    back as it was. *)
Lemma delete_fresh_insert (p : ptr) (b : block) (s : state) :
  heap s !! p = None ->
  set_heap (delete p (<[p := b]> (heap s))) s = s.
Proof.
  intros Hfresh. rewrite delete_insert_eq, delete_id by exact Hfresh.
  apply set_heap_id.
Qed.

(** X1.  [ma_runtime_new] always returns; its result is null exactly when
    the allocation failed, and then nothing was stored: the state is the one
    it was called in. *)
Theorem ma_runtime_new_null_iff (config_json : string) (answer : ptr) (s : state) :
  exists handle s',
    ma_runtime_new config_json answer s = Ret handle s' /\
    (handle = NULL <-> answer = NULL) /\
    (handle = NULL -> s' = s).
Proof.
  rewrite ma_runtime_new_unfold.
  destruct (answer =? NULL) eqn:Hnull.
  - apply Z.eqb_eq in Hnull. exists NULL, s. split; [reflexivity |].
    split; [split; auto | auto].
  - apply Z.eqb_neq in Hnull. eexists answer, _. split; [reflexivity |].
    split; [split; auto | intros Hz; contradiction].
Qed.

(** X2.  [ma_runtime_new] leaves what was there as it was: the callback
    registration, the delivery log and every block live before the call;
    only the address it returns is new.  The allocator's answer is null or
    an address not in use. *)
Theorem ma_runtime_new_frame (config_json : string) (answer : ptr) (s : state) :
  answer = NULL \/ heap s !! answer = None ->
  exists handle s',
    ma_runtime_new config_json answer s = Ret handle s' /\
    g_callback s' = g_callback s /\
    g_user_data s' = g_user_data s /\
    delivered s' = delivered s /\
    (forall (p : ptr) (b : block), heap s !! p = Some b -> heap s' !! p = Some b) /\
    (forall p : ptr, p <> handle -> heap s' !! p = heap s !! p).
Proof.
  intros Hanswer. rewrite ma_runtime_new_unfold.
  destruct (answer =? NULL) eqn:Hnull.
  - exists NULL, s. repeat split; auto.
  - apply Z.eqb_neq in Hnull. destruct Hanswer as [Hfail | Hfresh]; [contradiction |].
    eexists answer, _. split; [reflexivity |].
    cbn [g_callback g_user_data delivered heap set_heap].
    do 3 (split; [reflexivity |]). split.
    + intros p b Hp. rewrite lookup_insert_ne; [exact Hp |].
      intros ->. congruence.
    + intros p Hp. now rewrite lookup_insert_ne.
Qed.

Lemma ma_runtime_new_frame_witness :
  exists handle s',
    ma_runtime_new "{}" 48 two_runtimes = Ret handle s' /\
    g_callback s' = g_callback two_runtimes /\
    g_user_data s' = g_user_data two_runtimes /\
    delivered s' = delivered two_runtimes /\
    (forall (p : ptr) (b : block),
        heap two_runtimes !! p = Some b -> heap s' !! p = Some b) /\
    (forall p : ptr, p <> handle -> heap s' !! p = heap two_runtimes !! p).
Proof.
  apply (ma_runtime_new_frame "{}" 48 two_runtimes).
  right. vm_compute. reflexivity.
Defined.

(** X3.  Create then destroy is a round trip: destroying the handle
    [ma_runtime_new] returned, null or not, brings back the state before
    the creation. *)
Theorem create_destroy_round_trip (config_json : string) (answer : ptr) (s : state) :
  answer = NULL \/ heap s !! answer = None ->
  exists handle s',
    ma_runtime_new config_json answer s = Ret handle s' /\
    ma_runtime_free handle s' = Ret tt s.
Proof.
  intros Hanswer. rewrite ma_runtime_new_unfold.
  destruct (answer =? NULL) eqn:Hnull.
  - exists NULL, s. split; reflexivity.
  - apply Z.eqb_neq in Hnull. destruct Hanswer as [Hfail | Hfresh]; [contradiction |].
    eexists answer, _. split; [reflexivity |].
    unfold ma_runtime_free. rewrite (proj2 (Z.eqb_neq _ _) Hnull). cbn [negb].
    erewrite free_live; [| exact Hnull | cbn [heap set_heap]; apply lookup_insert_eq].
    cbn [heap set_heap]. rewrite set_heap_set_heap.
    now rewrite delete_fresh_insert.
Qed.

Lemma create_destroy_round_trip_witness :
  exists handle s',
    ma_runtime_new "{}" 48 two_runtimes = Ret handle s' /\
    ma_runtime_free handle s' = Ret tt two_runtimes.
Proof.
  apply (create_destroy_round_trip "{}" 48 two_runtimes).
  right. vm_compute. reflexivity.
Defined.

(** X4.  Invoke then release is a round trip: handing the pointer
    [ma_invoke_json] returned, null or not, to [ma_free_c_string] brings
    back the state before the invocation. *)
Theorem invoke_release_round_trip (runtime_handle : ptr) (request_json : string)
    (answer : ptr) (s : state) :
  answer = NULL \/ heap s !! answer = None ->
  exists out s',
    ma_invoke_json runtime_handle request_json answer s = Ret out s' /\
    ma_free_c_string out s' = Ret tt s.
Proof.
  intros Hanswer. rewrite ma_invoke_json_unfold.
  destruct (answer =? NULL) eqn:Hnull.
  - exists NULL, s. split; reflexivity.
  - apply Z.eqb_neq in Hnull. destruct Hanswer as [Hfail | Hfresh]; [contradiction |].
    eexists answer, _. split; [reflexivity |].
    unfold ma_free_c_string. rewrite (proj2 (Z.eqb_neq _ _) Hnull). cbn [negb].
    erewrite free_live; [| exact Hnull | cbn [heap set_heap]; apply lookup_insert_eq].
    cbn [heap set_heap]. rewrite set_heap_set_heap.
    now rewrite delete_fresh_insert.
Qed.

Lemma invoke_release_round_trip_witness :
  exists out s',
    ma_invoke_json 16 "ping" 48 two_runtimes = Ret out s' /\
    ma_free_c_string out s' = Ret tt two_runtimes.
Proof.
  apply (invoke_release_round_trip 16 "ping" 48 two_runtimes).
  right. vm_compute. reflexivity.
Defined.

(** X5.  A second release is undefined behaviour, for handles and for
    texts alike: the first [ma_runtime_free] (or [ma_free_c_string]) of a
    live block returns, the second one of the same pointer does not, and a
    session stops there. *)
Theorem release_twice_undefined (p : ptr) (b : block) (s : state) :
  p <> NULL ->
  heap s !! p = Some b ->
  exists s',
    ma_runtime_free p s = Ret tt s' /\ ma_runtime_free p s' = Undefined /\
    ma_free_c_string p s = Ret tt s' /\ ma_free_c_string p s' = Undefined /\
    run [Destroy p; Destroy p] s = (s', [Destroy p]) /\
    run [ReleaseText p; ReleaseText p] s = (s', [ReleaseText p]).
Proof.
  intros Hnn Hlive.
  destruct (ma_runtime_free_live p b s Hnn Hlive) as [Hfree1 Hfree2].
  destruct (ma_free_c_string_live p b s Hnn Hlive) as [Hrel1 Hrel2].
  eexists. split; [exact Hfree1 |]. split; [exact Hfree2 |].
  split; [exact Hrel1 |]. split; [exact Hrel2 |].
  cbn [run perform]. now rewrite Hfree1, Hfree2, Hrel1, Hrel2.
Qed.

Lemma release_twice_undefined_witness :
  exists s',
    ma_runtime_free 16 two_runtimes = Ret tt s' /\
    ma_runtime_free 16 s' = Undefined /\
    ma_free_c_string 16 two_runtimes = Ret tt s' /\
    ma_free_c_string 16 s' = Undefined /\
    run [Destroy 16; Destroy 16] two_runtimes = (s', [Destroy 16]) /\
    run [ReleaseText 16; ReleaseText 16] two_runtimes = (s', [ReleaseText 16]).
Proof.
  apply (release_twice_undefined 16 (StubObj {| placeholder := 1 |}) two_runtimes).
  - unfold NULL. lia.
  - vm_compute. reflexivity.
Defined.

(** What [free] of a live block leaves in place. *)
Lemma after_free (p : ptr) (s : state) :
  let s' := set_heap (delete p (heap s)) s in
  heap s' !! p = None /\
  (forall q : ptr, q <> p ->
     heap s' !! q = heap s !! q /\
     c_string_at s' q = c_string_at s q /\
     runtime_at s' q = runtime_at s q) /\
  (forall h : ptr, registration s' h = registration s h) /\
  delivered s' = delivered s.
Proof.
  cbn zeta. unfold c_string_at, runtime_at. cbn [heap set_heap].
  split; [apply lookup_delete_eq |]. split; [| split; reflexivity].
  intros q Hq. now rewrite lookup_delete_ne.
Qed.

(** X6.  [ma_runtime_free] of a live handle removes that block and nothing
    else: every other runtime stays live, every response text stays
    readable, and the callback registration, also the one made through the
    destroyed handle, stays in force. *)
Theorem ma_runtime_free_frame (runtime_handle : ptr) (b : block) (s : state) :
  runtime_handle <> NULL ->
  heap s !! runtime_handle = Some b ->
  exists s',
    ma_runtime_free runtime_handle s = Ret tt s' /\
    heap s' !! runtime_handle = None /\
    (forall q : ptr, q <> runtime_handle ->
       heap s' !! q = heap s !! q /\
       c_string_at s' q = c_string_at s q /\
       runtime_at s' q = runtime_at s q) /\
    (forall h : ptr, registration s' h = registration s h) /\
    delivered s' = delivered s.
Proof.
  intros Hnn Hlive.
  destruct (ma_runtime_free_live runtime_handle b s Hnn Hlive) as [Hfree _].
  eexists. split; [exact Hfree |]. apply after_free.
Qed.

Lemma ma_runtime_free_frame_witness :
  exists s',
    ma_runtime_free 32 two_runtimes = Ret tt s' /\
    heap s' !! 32 = None /\
    (forall q : ptr, q <> 32 ->
       heap s' !! q = heap two_runtimes !! q /\
       c_string_at s' q = c_string_at two_runtimes q /\
       runtime_at s' q = runtime_at two_runtimes q) /\
    (forall h : ptr, registration s' h = registration two_runtimes h) /\
    delivered s' = delivered two_runtimes.
Proof.
  apply (ma_runtime_free_frame 32 (StubObj {| placeholder := 1 |}) two_runtimes).
  - unfold NULL. lia.
  - vm_compute. reflexivity.
Defined.

(** X7.  [ma_free_c_string] of a live text removes that block and nothing
    else: the runtimes stay live, the other response texts stay readable,
    the registration and the delivery log are as before. *)
Theorem ma_free_c_string_frame (p : ptr) (b : block) (s : state) :
  p <> NULL ->
  heap s !! p = Some b ->
  exists s',
    ma_free_c_string p s = Ret tt s' /\
    c_string_at s' p = None /\
    (forall q : ptr, q <> p ->
       heap s' !! q = heap s !! q /\
       c_string_at s' q = c_string_at s q /\
       runtime_at s' q = runtime_at s q) /\
    (forall h : ptr, registration s' h = registration s h) /\
    delivered s' = delivered s.
Proof.
  intros Hnn Hlive.
  destruct (ma_free_c_string_live p b s Hnn Hlive) as [Hrel _].
  eexists. split; [exact Hrel |].
  destruct (after_free p s) as (Hgone & Hrest).
  split; [| exact Hrest].
  unfold c_string_at. now rewrite Hgone.
Qed.

Lemma ma_free_c_string_frame_witness :
  exists s',
    ma_free_c_string 48 (fst (run [Invoke 16 "ping" 48] two_runtimes)) = Ret tt s' /\
    c_string_at s' 48 = None /\
    (forall q : ptr, q <> 48 ->
       heap s' !! q = heap (fst (run [Invoke 16 "ping" 48] two_runtimes)) !! q /\
       c_string_at s' q = c_string_at (fst (run [Invoke 16 "ping" 48] two_runtimes)) q /\
       runtime_at s' q = runtime_at (fst (run [Invoke 16 "ping" 48] two_runtimes)) q) /\
    (forall h : ptr,
       registration s' h = registration (fst (run [Invoke 16 "ping" 48] two_runtimes)) h) /\
    delivered s' = delivered (fst (run [Invoke 16 "ping" 48] two_runtimes)).
Proof.
  apply (ma_free_c_string_frame 48 (Chars (Libc.literal payload) 0)
           (fst (run [Invoke 16 "ping" 48] two_runtimes))).
  - unfold NULL. lia.
  - vm_compute. reflexivity.
Defined.

(** The registration after one call: the new pair for a registration, the
    old one for every other entry point. *)
Lemma perform_registration (c : call) (s s' : state) (u : unit) (h : ptr) :
  perform c s = Ret u s' ->
  registration s' h = last_registration [c] (registration s h).
Proof.
  unfold registration.
  destruct c as [cfg a | q | q req a | q cb ud | q]; cbn [perform last_registration];
    unfold bind.
  - rewrite ma_runtime_new_unfold. destruct (a =? NULL); intros [= _ <-]; reflexivity.
  - unfold ma_runtime_free. destruct (negb (q =? NULL)).
    + intros H. apply free_keeps_rest in H as (-> & -> & _). reflexivity.
    + intros [= _ <-]. reflexivity.
  - rewrite ma_invoke_json_unfold. destruct (a =? NULL); intros [= _ <-]; reflexivity.
  - intros [= _ <-]. reflexivity.
  - unfold ma_free_c_string. destruct (negb (q =? NULL)).
    + intros H. apply free_keeps_rest in H as (-> & -> & _). reflexivity.
    + intros [= _ <-]. reflexivity.
Qed.

Lemma last_registration_cons (c : call) (rest : list call) (start : Z * Z) :
  last_registration (c :: rest) start
    = last_registration rest (last_registration [c] start).
Proof. destruct c; reflexivity. Qed.

(** X8.  Over a whole session that runs to its end, the registration in
    force is the pair of the last [ma_set_event_callback] call, whatever
    handle it was made through, and the initial one when there was none:
    creating, invoking, destroying and releasing never change it. *)
Theorem session_registration (calls : list call) (s : state) (h : ptr) :
  snd (run calls s) = [] ->
  registration (fst (run calls s)) h = last_registration calls (registration s h).
Proof.
  revert s. induction calls as [|c rest IH]; intros s Hdone.
  - reflexivity.
  - rewrite last_registration_cons. cbn [run] in *.
    destruct (perform c s) as [u s1|] eqn:Hstep.
    + rewrite (IH s1 Hdone). f_equal. exact (perform_registration c s s1 u h Hstep).
    + discriminate.
Qed.

Lemma session_registration_witness :
  registration
    (fst (run [Create "{}" 16; SetEventCallback 16 100 5; Invoke 16 "ping" 48;
               Create "" 32; SetEventCallback 32 200 7; Destroy 32; ReleaseText 48]
              initial_state)) 16
  = last_registration
      [Create "{}" 16; SetEventCallback 16 100 5; Invoke 16 "ping" 48;
       Create "" 32; SetEventCallback 32 200 7; Destroy 32; ReleaseText 48]
      (registration initial_state 16).
Proof.
  apply (session_registration
           [Create "{}" 16; SetEventCallback 16 100 5; Invoke 16 "ping" 48;
            Create "" 32; SetEventCallback 32 200 7; Destroy 32; ReleaseText 48]
           initial_state 16).
  vm_compute. reflexivity.
Defined.

Lemma stub_heap_insert (p : ptr) (b : block) (s : state) :
  p <> NULL -> stub_block b -> stub_heap s ->
  stub_heap (set_heap (<[p := b]> (heap s)) s).
Proof.
  intros Hnn Hb [Hnull Hall]. split; cbn [heap set_heap].
  - rewrite lookup_insert_ne by exact Hnn. exact Hnull.
  - intros q c. rewrite lookup_insert. case_decide.
    + intros [= <-]. exact Hb.
    + apply Hall.
Qed.

Lemma stub_heap_delete (p : ptr) (s : state) :
  stub_heap s -> stub_heap (set_heap (delete p (heap s)) s).
Proof.
  intros [Hnull Hall]. split; cbn [heap set_heap].
  - rewrite lookup_delete. case_decide; [reflexivity | exact Hnull].
  - intros q c. rewrite lookup_delete. case_decide; [discriminate | apply Hall].
Qed.

Lemma free_keeps_stub_heap (p : ptr) (s s' : state) (u : unit) :
  Libc.free p s = Ret u s' -> stub_heap s -> stub_heap s'.
Proof.
  unfold Libc.free. destruct (p =? NULL).
  - intros [= _ <-]. auto.
  - destruct (heap s !! p); [| discriminate].
    intros [= _ <-]. apply stub_heap_delete.
Qed.

(** Every entry point keeps the shape of the heap. *)
Lemma perform_keeps_stub_heap (c : call) (s s' : state) (u : unit) :
  perform c s = Ret u s' -> stub_heap s -> stub_heap s'.
Proof.
  destruct c as [cfg a | q | q req a | q cb ud | q]; cbn [perform]; unfold bind.
  - rewrite ma_runtime_new_unfold. destruct (a =? NULL) eqn:Hnull.
    + intros [= _ <-]. auto.
    + intros [= _ <-]. apply Z.eqb_neq in Hnull.
      apply stub_heap_insert; [exact Hnull | now left].
  - unfold ma_runtime_free. destruct (negb (q =? NULL)).
    + apply free_keeps_stub_heap.
    + intros [= _ <-]. auto.
  - rewrite ma_invoke_json_unfold. destruct (a =? NULL) eqn:Hnull.
    + intros [= _ <-]. auto.
    + intros [= _ <-]. apply Z.eqb_neq in Hnull.
      apply stub_heap_insert; [exact Hnull | now right].
  - intros [= _ <-]. auto.
  - unfold ma_free_c_string. destruct (negb (q =? NULL)).
    + apply free_keeps_stub_heap.
    + intros [= _ <-]. auto.
Qed.

Lemma run_keeps_stub_heap (calls : list call) (s : state) :
  stub_heap s -> stub_heap (fst (run calls s)).
Proof.
  revert s. induction calls as [|c rest IH]; intros s Hs; cbn [run].
  - exact Hs.
  - destruct (perform c s) as [u s1|] eqn:Hstep.
    + apply IH. exact (perform_keeps_stub_heap c s s1 u Hstep Hs).
    + exact Hs.
Qed.

(** X9.  At any point of any session started in the initial state, with
    whatever answers of the allocator, nothing is allocated at the null
    address, every stub object in the heap has [placeholder = 1], and every
    text in the heap is the payload. *)
Theorem session_heap_shape (calls : list call) (p : ptr) :
  heap (fst (run calls initial_state)) !! NULL = None /\
  (forall r : ma_runtime_stub,
     runtime_at (fst (run calls initial_state)) p = Some r -> placeholder r = 1) /\
  (forall text : string,
     c_string_at (fst (run calls initial_state)) p = Some text -> text = payload).
Proof.
  assert (Hinit : stub_heap initial_state).
  { split; [reflexivity |]. intros q b. cbn [heap initial_state].
    rewrite lookup_empty. discriminate. }
  destruct (run_keeps_stub_heap calls initial_state Hinit) as [Hnull Hall].
  split; [exact Hnull |]. unfold runtime_at, c_string_at.
  destruct (heap (fst (run calls initial_state)) !! p) as [b|] eqn:Hp.
  - destruct (Hall p b Hp) as [-> | ->]; split.
    + intros r [= <-]. reflexivity.
    + discriminate.
    + discriminate.
    + rewrite (until_nul_literal payload payload_nul_free). now intros text [= <-].
  - split; discriminate.
Qed.

(** The only way an entry point is undefined: a release of a non-null
    pointer that is not live. *)
Lemma perform_undefined (c : call) (s : state) :
  perform c s = Undefined ->
  exists p : ptr,
    (c = Destroy p \/ c = ReleaseText p) /\ p <> NULL /\ heap s !! p = None.
Proof.
  destruct c as [cfg a | q | q req a | q cb ud | q]; cbn [perform]; unfold bind.
  - rewrite ma_runtime_new_unfold. destruct (a =? NULL); discriminate.
  - unfold ma_runtime_free, Libc.free. destruct (q =? NULL) eqn:Hq; [discriminate |].
    cbn [negb]. destruct (heap s !! q) eqn:Hlive; [discriminate |].
    intros _. exists q. apply Z.eqb_neq in Hq. auto.
  - rewrite ma_invoke_json_unfold. destruct (a =? NULL); discriminate.
  - discriminate.
  - unfold ma_free_c_string, Libc.free. destruct (q =? NULL) eqn:Hq; [discriminate |].
    cbn [negb]. destruct (heap s !! q) eqn:Hlive; [discriminate |].
    intros _. exists q. apply Z.eqb_neq in Hq. auto.
Qed.

(** X10.  A session is cut short only by a release of a dead pointer: when
    calls are left over, the first of them is a [ma_runtime_free] or
    [ma_free_c_string] of a non-null pointer with no live block in the state
    reached.  Creating, invoking and registering never end a session. *)
Theorem session_stops_only_at_dead_release (calls : list call) (s : state)
    (c : call) (rest : list call) :
  snd (run calls s) = c :: rest ->
  exists p : ptr,
    (c = Destroy p \/ c = ReleaseText p) /\
    p <> NULL /\
    heap (fst (run calls s)) !! p = None.
Proof.
  revert s. induction calls as [|c0 calls IH]; intros s; cbn [run].
  - discriminate.
  - destruct (perform c0 s) as [u s1|] eqn:Hstep.
    + apply IH.
    + cbn [fst snd]. intros [= <- _]. exact (perform_undefined c0 s Hstep).
Qed.

Lemma session_stops_only_at_dead_release_witness :
  exists p : ptr,
    (ReleaseText 16 = Destroy p \/ ReleaseText 16 = ReleaseText p) /\
    p <> NULL /\
    heap (fst (run [Create "{}" 16; Destroy 16; ReleaseText 16; Invoke 16 "ping" 48]
                   initial_state)) !! p = None.
Proof.
  apply (session_stops_only_at_dead_release
           [Create "{}" 16; Destroy 16; ReleaseText 16; Invoke 16 "ping" 48]
           initial_state (ReleaseText 16) [Invoke 16 "ping" 48]).
  vm_compute. reflexivity.
Defined.


